(** * darija-tts: the silence-based audio splitter

    A shallow embedding of [AudioSplitter] from
    [data/pipeline/audio-spliter/audio-spliter.py]: the constructor, the
    grouping loop of [split_audio] with its trailing flush, and the file name
    built by [save_segment], together with the properties of the groups
    handed to [save_segment].

    Modelling conventions.
    - A pydub [AudioSegment] is the list of its frames; the type of a frame
      is left abstract.  [a + b] appends the frames of [b] to those of [a],
      and [AudioSegment.silent(duration=0)] has no frame.  The segments of
      one pass are slices of one decoded file and share its frame rate; the
      model covers the passes in which [+] converts no frame, that is files
      whose frame rate is at least the 11025 Hz of the initial silent
      accumulator.
    - [len(seg)] is pydub's [round(1000 * (frame_count / frame_rate))], a
      number of milliseconds.  Python evaluates the quotient in double
      precision and rounds to the nearest integer; where the exact quotient
      lies half-way between two integers the floating-point error decides,
      so the direction taken there is a parameter, [tie_up].  [len] is
      therefore not additive: [len(a + b)] may differ by one from
      [len(a) + len(b)].
    - Python integers are [Z]; [//] with the positive divisor 1000 is [Z.div].
    - [split_on_silence], the decoding of the file and the computation of
      [file_name] are external: [split_audio] below starts at line 105, from
      the list [segments] and the [file_name].
    - [save_segment] catches every exception it may raise, so a call never
      disturbs the loop; the effect of the pass is the ordered list of the
      calls made, one [SaveCall] per call. *)

From Stdlib Require Import Ascii DecimalString DecimalZ.
From Stdlib Require Import String ZArith Lia Bool List.
Import ListNotations.
Local Open Scope Z_scope.

(** ** The instance attributes set by [__init__] *)

Record AudioSplitter : Type := mkAudioSplitter {
  input_folder : string;
  output_folder : string;
  silence_thresh : Z;
  min_silence_len : Z;
  min_segment_length : Z;
  max_segment_length : Z
}.

(** ** The constructor

    [__init__] stores its six arguments and then creates the output folder
    with [Path.mkdir(self.output_folder, parents=True)].  The file system and
    the exceptions of [Path.mkdir] belong to the standard library, so they are
    parameters here. *)

Section Constructor.

Variable filesystem : Type.
Variable exception : Type.
Variable Path_mkdir : string -> filesystem -> exception + filesystem.

Definition AudioSplitter_init
    (input_folder' output_folder' : string)
    (silence_thresh' min_silence_len' : Z)
    (min_segment_length' max_segment_length' : Z)
    (fs : filesystem) : exception + (AudioSplitter * filesystem) :=
  let self := mkAudioSplitter input_folder' output_folder'
                silence_thresh' min_silence_len'
                min_segment_length' max_segment_length' in
  match Path_mkdir (output_folder self) fs with
  | inl e => inl e
  | inr fs' => inr (self, fs')
  end.

End Constructor.

(** The documented behaviour of [Path.mkdir] without [exist_ok], for a
    directory whose parent exists: it raises [FileExistsError] when the
    directory is there already and creates it otherwise.  A file system is
    the list of the directories it holds.  Used only to run the constructor
    on the folder ["wav"] of the working directory. *)

Inductive OSError : Type := FileExistsError (path : string).

Definition mkdir_documented (path : string) (fs : list string)
    : OSError + list string :=
  if existsb (String.eqb path) fs then inl (FileExistsError path)
  else inr (path :: fs).

(** ** Durations

    The frame rate of the decoded file, and the direction in which
    [round(1000 * (frame_count / frame_rate))] goes for a frame count whose
    exact duration is half-way between two whole milliseconds. *)

Record Timing : Type := mkTiming {
  frame_rate : positive;
  tie_up : Z -> bool
}.

(** [round(1000 * (frame_count / frame_rate))]. *)
Definition round_ms (timing : Timing) (frame_count : Z) : Z :=
  let rate := Z.pos (frame_rate timing) in
  let whole := (1000 * frame_count) / rate in
  let twice_rest := 2 * ((1000 * frame_count) mod rate) in
  if twice_rest <? rate then whole
  else if rate <? twice_rest then whole + 1
  else if tie_up timing frame_count then whole + 1
  else whole.

(** ** Audio segments and the calls to [save_segment] *)

Section Splitter.

Context {sample : Type}.
Variable timing : Timing.

Definition AudioSegment : Type := list sample.

(** [seg.frame_count()] *)
Definition frame_count (seg : AudioSegment) : Z := Z.of_nat (length seg).

(** [len(seg)]: the duration in milliseconds. *)
Definition len (seg : AudioSegment) : Z := round_ms timing (frame_count seg).

(** [AudioSegment.silent(duration=0)] *)
Definition silent0 : AudioSegment := [].

(** One call [self.save_segment(segment, file_name, start_time, end_time)]. *)
Record SaveCall : Type := mkSaveCall {
  segment : AudioSegment;
  file_name : string;
  start_time : Z;
  end_time : Z
}.

(** The two local variables that live across iterations. *)
Record LoopState : Type := mkLoopState {
  current_segment : AudioSegment;
  segment_start : Z
}.

(** Lines 105-106. *)
Definition initial_state : LoopState :=
  {| current_segment := silent0; segment_start := 0 |}.

(** Lines 109-127: one iteration of [for segment in segments], returning the
    next state and the calls to [save_segment] it made. *)
Definition loop_body (self : AudioSplitter) (fname : string)
    (st : LoopState) (seg : AudioSegment) : LoopState * list SaveCall :=
  let cur := current_segment st in
  let start := segment_start st in
  if len cur + len seg <? min_segment_length self then
    ({| current_segment := cur ++ seg; segment_start := start |}, [])
  else if len cur + len seg >? max_segment_length self then
    let segment_end := start + len cur / 1000 in
    ({| current_segment := seg; segment_start := segment_end |},
     [mkSaveCall cur fname start segment_end])
  else
    let cur' := cur ++ seg in
    let segment_end := start + len cur' / 1000 in
    ({| current_segment := silent0; segment_start := segment_end |},
     [mkSaveCall cur' fname start segment_end]).

(** Lines 108-127: the whole loop. *)
Fixpoint for_loop (self : AudioSplitter) (fname : string)
    (st : LoopState) (segments : list AudioSegment)
    : LoopState * list SaveCall :=
  match segments with
  | [] => (st, [])
  | seg :: rest =>
      let '(st1, saved1) := loop_body self fname st seg in
      let '(st2, saved2) := for_loop self fname st1 rest in
      (st2, saved1 ++ saved2)
  end.

(** Lines 129-134: the flush after the loop. *)
Definition trailing_flush (fname : string) (st : LoopState) : list SaveCall :=
  if len (current_segment st) >? 0 then
    let segment_end := segment_start st + len (current_segment st) / 1000 in
    [mkSaveCall (current_segment st) fname (segment_start st) segment_end]
  else [].

(** The loop and the flush, started from any state. *)
Definition split_from (self : AudioSplitter) (fname : string)
    (st : LoopState) (segments : list AudioSegment) : list SaveCall :=
  let '(st', saved) := for_loop self fname st segments in
  saved ++ trailing_flush fname st'.

(** Lines 105-134 of [split_audio]. *)
Definition split_audio (self : AudioSplitter) (fname : string)
    (segments : list AudioSegment) : list SaveCall :=
  split_from self fname initial_state segments.

(** The durations of a list of segments, added up. *)
Definition total_ms (segments : list AudioSegment) : Z :=
  fold_right (fun seg acc => len seg + acc) 0 segments.

Definition payloads (saved : list SaveCall) : list AudioSegment :=
  map segment saved.

End Splitter.

Arguments AudioSegment : clear implicits.
Arguments SaveCall : clear implicits.
Arguments LoopState : clear implicits.

(** The defaults of [__init__], as used by the module-level
    [splitter = AudioSplitter()]. *)
Definition default_splitter : AudioSplitter :=
  mkAudioSplitter "cleaned_audios" "wav" (-40) 500 10000 15000.

(** ** Predicates on the list of saved groups *)

(** Every two neighbours of a list are related by [R]. *)
Fixpoint adjacent {A : Type} (R : A -> A -> Prop) (l : list A) : Prop :=
  match l with
  | a :: tl => match tl with
               | b :: _ => R a b
               | [] => True
               end /\ adjacent R tl
  | [] => True
  end.

(** [chain s saved e]: the intervals of [saved] tile the span from [s] to [e],
    each one starting where the one before it ended and none running
    backwards. *)
Inductive chain {sample : Type} : Z -> list (SaveCall sample) -> Z -> Prop :=
| chain_nil : forall s, chain s [] s
| chain_cons : forall g saved e,
    start_time g <= end_time g ->
    chain (end_time g) saved e ->
    chain (start_time g) (g :: saved) e.

(** The whole seconds each saved group accounts for. *)
Definition whole_seconds {sample : Type} (timing : Timing)
    (saved : list (SaveCall sample)) : Z :=
  fold_right (fun g acc => len timing (segment g) / 1000 + acc) 0 saved.



(** ** Concrete inputs

    A file at 11025 Hz, where no frame count falls half-way between two
    milliseconds; the frames of its slice [audio[0:ms]], which carry no
    data; and three configurations next to the default one: a band whose
    floor lies above its ceiling, a band without a floor, and the default
    band scaled down by a hundred. *)

Definition rate_11025 : Timing :=
  {| frame_rate := 11025; tie_up := fun _ => false |}.

Definition tone (ms : Z) : AudioSegment unit :=
  repeat tt (Z.to_nat (ms * 11025 / 1000)).

Definition inverted_band : AudioSplitter :=
  mkAudioSplitter "cleaned_audios" "wav" (-40) 500 20000 10000.

Definition no_floor : AudioSplitter :=
  mkAudioSplitter "cleaned_audios" "wav" (-40) 500 0 15000.

Definition small_band : AudioSplitter :=
  mkAudioSplitter "cleaned_audios" "wav" (-40) 500 100 150.

(** ** The name of a saved file *)

(** [str(n)] for an integer [n], as an f-string field prints it: decimal
    digits, with a leading minus sign below zero. *)
Definition str (n : Z) : string := NilZero.string_of_int (Z.to_int n).

(** Line 153 of [save_segment]:
    [f"{file_name}.{start_time}.{end_time}.wav"]. *)
Definition segment_filename (file_name : string) (start_time end_time : Z)
    : string :=
  (file_name ++ "." ++ str start_time ++ "." ++ str end_time ++ ".wav")%string.

(** The name [save_segment] gives to the file of one call. *)
Definition saved_filename {sample : Type} (call : SaveCall sample) : string :=
  segment_filename (file_name call) (start_time call) (end_time call).


(** A string without the character ["."]. *)
Fixpoint dot_free (s : string) : Prop :=
  match s with
  | EmptyString => True
  | String c rest => c <> "."%char /\ dot_free rest
  end.

(** ** Basic facts about [len] and the shape of the pass *)

(** The rounded duration is within half a millisecond of the exact one. *)
Lemma round_ms_spec (timing : Timing) (n : Z) :
  2 * Z.pos (frame_rate timing) * round_ms timing n
  - Z.pos (frame_rate timing) <= 2000 * n
  <= 2 * Z.pos (frame_rate timing) * round_ms timing n
     + Z.pos (frame_rate timing).
Proof.
  unfold round_ms. set (R := Z.pos (frame_rate timing)).
  assert (HR : 0 < R) by (subst R; lia).
  pose proof (Z.div_mod (1000 * n) R ltac:(lia)) as Hdm.
  pose proof (Z.mod_pos_bound (1000 * n) R HR) as Hmod.
  set (q := (1000 * n) / R) in *. set (m := (1000 * n) mod R) in *.
  destruct (Z.ltb_spec (2 * m) R); [nia |].
  destruct (Z.ltb_spec R (2 * m)); [nia |].
  destruct (tie_up timing n); nia.
Qed.

Lemma round_ms_mono (timing : Timing) (n m : Z) :
  n <= m -> round_ms timing n <= round_ms timing m.
Proof.
  intros Hnm. destruct (Z.eq_dec n m) as [-> | Hne]; [lia |].
  pose proof (round_ms_spec timing n). pose proof (round_ms_spec timing m).
  assert (0 < Z.pos (frame_rate timing)) by lia. nia.
Qed.

Section Facts.

Context {sample : Type}.
Variable timing : Timing.
Implicit Types (seg cur : AudioSegment sample) (st : LoopState sample).
Implicit Types (segments : list (AudioSegment sample)).
Implicit Types (self : AudioSplitter) (fname : string).

Lemma frame_count_app seg1 seg2 :
  frame_count (seg1 ++ seg2) = frame_count seg1 + frame_count seg2.
Proof. unfold frame_count. rewrite length_app. lia. Qed.

Lemma frame_count_nonneg seg : 0 <= frame_count seg.
Proof. unfold frame_count. lia. Qed.

Lemma len_spec seg :
  2 * Z.pos (frame_rate timing) * len timing seg
  - Z.pos (frame_rate timing) <= 2000 * frame_count seg
  <= 2 * Z.pos (frame_rate timing) * len timing seg
     + Z.pos (frame_rate timing).
Proof. apply round_ms_spec. Qed.

Lemma len_nonneg seg : 0 <= len timing seg.
Proof.
  pose proof (len_spec seg). pose proof (frame_count_nonneg seg).
  assert (0 < Z.pos (frame_rate timing)) by lia. nia.
Qed.

Lemma secs_nonneg seg : 0 <= len timing seg / 1000.
Proof. apply Z.div_pos; [apply len_nonneg | lia]. Qed.

Lemma len_silent0 : len timing (@silent0 sample) = 0.
Proof.
  pose proof (len_spec (@silent0 sample)) as H.
  change (frame_count (@silent0 sample)) with 0 in H.
  assert (0 < Z.pos (frame_rate timing)) by lia. nia.
Qed.

(** Appending frames never shortens a segment, and changes the duration by
    the sum of the durations up to one millisecond. *)
Lemma len_app_l seg1 seg2 : len timing seg1 <= len timing (seg1 ++ seg2).
Proof.
  apply round_ms_mono. rewrite frame_count_app.
  pose proof (frame_count_nonneg seg2). lia.
Qed.

Lemma len_app_r seg1 seg2 : len timing seg2 <= len timing (seg1 ++ seg2).
Proof.
  apply round_ms_mono. rewrite frame_count_app.
  pose proof (frame_count_nonneg seg1). lia.
Qed.



(** The three branches of the loop body, by the arithmetic condition that
    selects each. *)
Lemma loop_body_under self fname st seg :
  len timing (current_segment st) + len timing seg < min_segment_length self ->
  loop_body timing self fname st seg =
    ({| current_segment := current_segment st ++ seg;
        segment_start := segment_start st |}, []).
Proof.
  intros H. unfold loop_body.
  destruct (Z.ltb_spec (len timing (current_segment st) + len timing seg)
              (min_segment_length self)); [reflexivity | lia].
Qed.

Lemma loop_body_over self fname st seg :
  min_segment_length self
  <= len timing (current_segment st) + len timing seg ->
  max_segment_length self
  < len timing (current_segment st) + len timing seg ->
  loop_body timing self fname st seg =
    ({| current_segment := seg;
        segment_start :=
          segment_start st + len timing (current_segment st) / 1000 |},
     [mkSaveCall (current_segment st) fname (segment_start st)
        (segment_start st + len timing (current_segment st) / 1000)]).
Proof.
  intros Hmin Hmax. unfold loop_body.
  destruct (Z.ltb_spec (len timing (current_segment st) + len timing seg)
              (min_segment_length self)); [lia |].
  destruct (Z.gtb_spec (len timing (current_segment st) + len timing seg)
              (max_segment_length self)); [reflexivity | lia].
Qed.

Lemma loop_body_within self fname st seg :
  min_segment_length self
  <= len timing (current_segment st) + len timing seg ->
  len timing (current_segment st) + len timing seg
  <= max_segment_length self ->
  loop_body timing self fname st seg =
    ({| current_segment := silent0;
        segment_start :=
          segment_start st + len timing (current_segment st ++ seg) / 1000 |},
     [mkSaveCall (current_segment st ++ seg) fname (segment_start st)
        (segment_start st + len timing (current_segment st ++ seg) / 1000)]).
Proof.
  intros Hmin Hmax. unfold loop_body.
  destruct (Z.ltb_spec (len timing (current_segment st) + len timing seg)
              (min_segment_length self)); [lia |].
  destruct (Z.gtb_spec (len timing (current_segment st) + len timing seg)
              (max_segment_length self)); [lia | reflexivity].
Qed.

(** Exactly one of the three branches applies. *)
Lemma loop_body_cases self fname st seg :
  let p := len timing (current_segment st) + len timing seg in
  p < min_segment_length self
  \/ (min_segment_length self <= p /\ max_segment_length self < p)
  \/ (min_segment_length self <= p /\ p <= max_segment_length self).
Proof. cbv zeta. lia. Qed.

Lemma split_from_nil self fname st :
  split_from timing self fname st [] = trailing_flush timing fname st.
Proof. reflexivity. Qed.

Lemma split_from_cons self fname st seg segments :
  split_from timing self fname st (seg :: segments) =
    snd (loop_body timing self fname st seg)
    ++ split_from timing self fname
         (fst (loop_body timing self fname st seg)) segments.
Proof.
  unfold split_from. cbn [for_loop].
  destruct (loop_body timing self fname st seg) as [st1 saved1].
  cbn [fst snd].
  destruct (for_loop timing self fname st1 segments) as [st2 saved2].
  now rewrite app_assoc.
Qed.

Lemma trailing_flush_some fname st :
  0 < len timing (current_segment st) ->
  trailing_flush timing fname st =
    [mkSaveCall (current_segment st) fname (segment_start st)
       (segment_start st + len timing (current_segment st) / 1000)].
Proof.
  intros H. unfold trailing_flush.
  destruct (Z.gtb_spec (len timing (current_segment st)) 0);
    [reflexivity | lia].
Qed.

Lemma trailing_flush_none fname st :
  len timing (current_segment st) <= 0 ->
  trailing_flush timing fname st = [].
Proof.
  intros H. unfold trailing_flush.
  destruct (Z.gtb_spec (len timing (current_segment st)) 0);
    [lia | reflexivity].
Qed.

Lemma total_ms_nonneg segments : 0 <= total_ms timing segments.
Proof.
  induction segments as [|seg rest IH]; cbn [total_ms fold_right]; [lia |].
  fold (total_ms timing rest). pose proof (len_nonneg seg). lia.
Qed.


End Facts.

(** Splits the goal along the branch the loop body takes on [seg] in [st],
    rewriting the body accordingly. *)
Ltac body_split timing self fname st seg :=
  destruct (loop_body_cases timing self fname st seg)
    as [?Hc | [[?Hc ?Hd] | [?Hc ?Hd]]];
  cbv zeta in *;
  [ rewrite (loop_body_under timing self fname st seg) by assumption
  | rewrite (loop_body_over timing self fname st seg) by assumption
  | rewrite (loop_body_within timing self fname st seg) by assumption ];
  cbn [fst snd].

(** Decides a comparison between closed durations. *)
Ltac len_calc :=
  vm_compute; first [reflexivity | discriminate | (intro; discriminate)].

(** ** Conservation *)

Section Conservation.

Context {sample : Type}.
Variable timing : Timing.



End Conservation.



(** ** The intervals tile the time line *)

Section Intervals.

Context {sample : Type}.
Variable timing : Timing.
Implicit Types (st : LoopState sample) (g : SaveCall sample).
Implicit Types (saved : list (SaveCall sample)).

Lemma chain_app s m e saved1 saved2 :
  chain s saved1 m -> chain m saved2 e -> chain s (saved1 ++ saved2) e.
Proof.
  induction 1 as [s | g saved m Hle Hch IH]; intros H2; [exact H2 |].
  cbn [app]. constructor; auto.
Qed.

Lemma chain_single s e (payload : AudioSegment sample) fname :
  s <= e -> chain s [mkSaveCall payload fname s e] e.
Proof.
  intros H.
  apply (chain_cons (mkSaveCall payload fname s e) [] e); [exact H |].
  apply chain_nil.
Qed.

Lemma chain_head s e g saved : chain s (g :: saved) e -> start_time g = s.
Proof. now inversion 1. Qed.

Lemma chain_forward s e saved :
  chain s saved e -> Forall (fun g => start_time g <= end_time g) saved.
Proof. induction 1; constructor; assumption. Qed.

Lemma chain_adjacent s e saved :
  chain s saved e -> adjacent (fun g g' => end_time g = start_time g') saved.
Proof.
  induction 1 as [s | g saved e Hle Hch IH]; [exact I |].
  cbn [adjacent]. split; [| exact IH].
  destruct saved as [|g' saved']; [exact I |].
  symmetry. eapply chain_head; eassumption.
Qed.

Lemma chain_firstn s e saved :
  chain s saved e ->
  forall k g, nth_error saved k = Some g ->
              chain s (firstn (S k) saved) (end_time g).
Proof.
  induction 1 as [s | g0 saved e Hle Hch IH]; intros k g Hk.
  - destruct k; discriminate.
  - destruct k as [|k]; cbn in Hk.
    + injection Hk as <-. cbn. constructor; [assumption | constructor].
    + cbn [firstn]. constructor; [assumption |]. now apply IH.
Qed.

Lemma chain_span s e saved :
  chain s saved e ->
  Forall (fun g => end_time g - start_time g
                   = len timing (segment g) / 1000) saved ->
  e = s + whole_seconds timing saved.
Proof.
  induction 1 as [s | g saved e Hle Hch IH]; intros HF.
  - cbn. lia.
  - inversion HF as [|? ? Hg HF']; subst.
    cbn [whole_seconds fold_right]. fold (whole_seconds timing saved).
    specialize (IH HF'). lia.
Qed.

Lemma loop_body_chain self fname st (seg : AudioSegment sample) :
  chain (segment_start st) (snd (loop_body timing self fname st seg))
        (segment_start (fst (loop_body timing self fname st seg))).
Proof.
  pose proof (secs_nonneg timing (current_segment st)) as H0.
  pose proof (secs_nonneg timing (current_segment st ++ seg)) as H1.
  body_split timing self fname st seg; cbn [segment_start].
  - constructor.
  - apply chain_single. lia.
  - apply chain_single. lia.
Qed.

Lemma trailing_flush_chain fname st :
  exists e, chain (segment_start st) (trailing_flush timing fname st) e.
Proof.
  destruct (Z.lt_ge_cases 0 (len timing (current_segment st))) as [H | H].
  - rewrite trailing_flush_some by assumption. eexists.
    pose proof (secs_nonneg timing (current_segment st)) as H0.
    apply chain_single. lia.
  - rewrite trailing_flush_none by assumption. eexists. constructor.
Qed.

Lemma split_from_chain self fname (segments : list (AudioSegment sample)) :
  forall st, exists e,
    chain (segment_start st) (split_from timing self fname st segments) e.
Proof.
  induction segments as [|seg rest IH]; intros st.
  - rewrite split_from_nil. apply trailing_flush_chain.
  - rewrite split_from_cons.
    destruct (IH (fst (loop_body timing self fname st seg))) as [e He].
    exists e. eapply chain_app; [apply loop_body_chain | exact He].
Qed.

(** Every saved interval is as long as its payload in whole seconds. *)
Lemma split_from_exact self fname (segments : list (AudioSegment sample)) :
  forall st,
    Forall (fun g => end_time g - start_time g
                     = len timing (segment g) / 1000)
           (split_from timing self fname st segments).
Proof.
  induction segments as [|seg rest IH]; intros st.
  - rewrite split_from_nil.
    destruct (Z.lt_ge_cases 0 (len timing (current_segment st))) as [H | H].
    + rewrite trailing_flush_some by assumption.
      constructor; [cbn [start_time end_time segment]; lia | constructor].
    + rewrite trailing_flush_none by assumption. constructor.
  - rewrite split_from_cons. apply Forall_app. split; [| apply IH].
    body_split timing self fname st seg;
      repeat constructor; cbn [start_time end_time segment]; lia.
Qed.

End Intervals.

Lemma adjacent_nth_error {A : Type} (R : A -> A -> Prop) (l : list A) :
  adjacent R l ->
  forall i a b, nth_error l i = Some a -> nth_error l (S i) = Some b -> R a b.
Proof.
  induction l as [|x l IH]; intros Hadj i a b Ha Hb.
  - destruct i; discriminate.
  - destruct Hadj as [Hx Hl]. destruct i as [|i].
    + cbn in Ha, Hb. injection Ha as <-.
      destruct l as [|y l']; [discriminate |].
      cbn in Hb. injection Hb as <-. exact Hx.
    + cbn in Ha. change (nth_error l (S i) = Some b) in Hb.
      eapply IH; eassumption.
Qed.

(** ** Passes on concrete inputs

    Evaluated branch by branch: only durations are computed, the frames stay
    as they are written. *)

Ltac run_step :=
  rewrite split_from_cons;
  first [ rewrite loop_body_under by len_calc
        | rewrite loop_body_over by len_calc
        | rewrite loop_body_within by len_calc ];
  cbn [fst snd app current_segment segment_start silent0].

Ltac run_flush :=
  rewrite split_from_nil;
  first [ rewrite trailing_flush_some by len_calc
        | rewrite trailing_flush_none by len_calc ];
  cbn [app current_segment segment_start].

Ltac run_times :=
  repeat match goal with
         | |- context [?a + len ?t ?x / 1000] =>
             let v := eval vm_compute in (a + len t x / 1000) in
             replace (a + len t x / 1000) with v by (vm_compute; reflexivity)
         end.

Ltac run_pass :=
  unfold split_audio, initial_state;
  cbn [silent0];
  repeat run_step; run_flush; run_times; reflexivity.

Example run_3000_3000_3000 :
  split_audio rate_11025 default_splitter "clip"
    [tone 3000; tone 3000; tone 3000]
  = [mkSaveCall (tone 3000 ++ tone 3000 ++ tone 3000) "clip" 0 9].
Proof.
  unfold split_audio, initial_state. cbn [silent0].
  repeat run_step. rewrite <- !app_assoc. run_flush. run_times. reflexivity.
Qed.

Example run_6000_6000 :
  split_audio rate_11025 default_splitter "clip" [tone 6000; tone 6000]
  = [mkSaveCall (tone 6000 ++ tone 6000) "clip" 0 12].
Proof. run_pass. Qed.

Example run_9000_9000 :
  split_audio rate_11025 default_splitter "clip" [tone 9000; tone 9000]
  = [mkSaveCall (tone 9000) "clip" 0 9; mkSaveCall (tone 9000) "clip" 9 18].
Proof. run_pass. Qed.

Example run_10500_10500 :
  split_audio rate_11025 default_splitter "clip" [tone 10500; tone 10500]
  = [mkSaveCall (tone 10500) "clip" 0 10;
     mkSaveCall (tone 10500) "clip" 10 20].
Proof. run_pass. Qed.

Example run_16000_3000 :
  split_audio rate_11025 default_splitter "clip" [tone 16000; tone 3000]
  = [mkSaveCall [] "clip" 0 0; mkSaveCall (tone 16000) "clip" 0 16;
     mkSaveCall (tone 3000) "clip" 16 19].
Proof. run_pass. Qed.


Example run_6000_6000_700 :
  split_audio rate_11025 default_splitter "clip"
    [tone 6000; tone 6000; tone 700]
  = [mkSaveCall (tone 6000 ++ tone 6000) "clip" 0 12;
     mkSaveCall (tone 700) "clip" 12 12].
Proof. run_pass. Qed.

(** C2. Contiguity and order preservation: for every list of input segments
    and every configuration, each saved group has [start_time <= end_time],
    and whenever group [i] is followed by group [i+1], the end time of the
    former is the start time of the latter. *)
Theorem split_audio_contiguous {sample : Type} (timing : Timing)
    (self : AudioSplitter) (fname : string)
    (segments : list (AudioSegment sample)) :
  Forall (fun g => start_time g <= end_time g)
         (split_audio timing self fname segments)
  /\ forall i g g',
       nth_error (split_audio timing self fname segments) i = Some g ->
       nth_error (split_audio timing self fname segments) (S i) = Some g' ->
       end_time g = start_time g'.
Proof.
  destruct (split_from_chain timing self fname segments initial_state)
    as [e He].
  fold (split_audio timing self fname segments) in He.
  split.
  - eapply chain_forward; exact He.
  - apply (adjacent_nth_error (fun g g' => end_time g = start_time g')).
    eapply chain_adjacent; exact He.
Qed.

Lemma split_audio_contiguous_witness :
  end_time (mkSaveCall (tone 9000) "clip" 0 9)
  = start_time (mkSaveCall (tone 9000) "clip" 9 18).
Proof.
  apply (proj2 (split_audio_contiguous rate_11025 default_splitter "clip"
                  [tone 9000; tone 9000]) 0%nat);
    rewrite run_9000_9000; reflexivity.
Defined.

(** C9. Whenever the pass saves anything, the first saved group starts at
    second 0, for every list of input segments and every configuration. *)
Theorem split_audio_first_start {sample : Type} (timing : Timing)
    (self : AudioSplitter) (fname : string)
    (segments : list (AudioSegment sample))
    (g : SaveCall sample) (rest : list (SaveCall sample)) :
  split_audio timing self fname segments = g :: rest -> start_time g = 0.
Proof.
  intros Hout.
  destruct (split_from_chain timing self fname segments initial_state)
    as [e He].
  fold (split_audio timing self fname segments) in He. rewrite Hout in He.
  exact (chain_head _ _ _ _ He).
Qed.

Lemma split_audio_first_start_witness :
  start_time (mkSaveCall (tone 6000 ++ tone 6000) "clip" 0 12) = 0.
Proof.
  apply (split_audio_first_start rate_11025 default_splitter "clip"
           [tone 6000; tone 6000] _ []).
  exact run_6000_6000.
Defined.

(** C10. Exact truncation: for every saved group, be it saved by the branch
    that flushes before appending, by the branch that appends and flushes, or
    by the flush after the loop, [end_time - start_time] is exactly the
    payload's duration in milliseconds floor-divided by 1000, which for these
    non-negative durations is also the quotient truncated toward zero; and the
    end time of the group at index [k] is the sum of these truncated
    durations over the groups up to [k], so the milliseconds cut off at one
    flush never reach a later interval. *)
Theorem split_audio_exact_truncation {sample : Type} (timing : Timing)
    (self : AudioSplitter) (fname : string)
    (segments : list (AudioSegment sample)) :
  Forall (fun g => end_time g - start_time g = len timing (segment g) / 1000
                   /\ end_time g - start_time g
                      = len timing (segment g) ÷ 1000)
         (split_audio timing self fname segments)
  /\ forall k g,
       nth_error (split_audio timing self fname segments) k = Some g ->
       end_time g
       = whole_seconds timing
           (firstn (S k) (split_audio timing self fname segments)).
Proof.
  pose proof (split_from_exact timing self fname segments initial_state)
    as HF.
  fold (split_audio timing self fname segments) in HF.
  split.
  - eapply Forall_impl; [| exact HF]. intros g Hg. split; [exact Hg |].
    cbv beta in Hg. rewrite Hg. symmetry.
    apply Z.quot_div_nonneg; [apply len_nonneg | lia].
  - intros k g Hk.
    destruct (split_from_chain timing self fname segments initial_state)
      as [e He].
    fold (split_audio timing self fname segments) in He.
    pose proof (chain_firstn _ _ _ He k g Hk) as Hpre.
    apply (chain_span timing) in Hpre; [exact Hpre |].
    rewrite <- (firstn_skipn (S k) (split_audio timing self fname segments))
      in HF.
    apply Forall_app in HF. exact (proj1 HF).
Qed.

(** Two groups of 10500 ms each end at seconds 10 and 20, although 21
    seconds of audio have gone by. *)
Lemma split_audio_exact_truncation_witness :
  end_time (mkSaveCall (tone 10500) "clip" 10 20)
  = whole_seconds rate_11025
      [mkSaveCall (tone 10500) "clip" 0 10;
       mkSaveCall (tone 10500) "clip" 10 20].
Proof.
  pose proof (proj2 (split_audio_exact_truncation rate_11025
                       default_splitter "clip" [tone 10500; tone 10500])
                1%nat (mkSaveCall (tone 10500) "clip" 10 20)) as H.
  rewrite run_10500_10500 in H. exact (H eq_refl).
Defined.

(** ** Single steps and short traces *)



(** C8. An oversized segment meeting an empty accumulator: when the floor is
    not above the ceiling, the accumulator has duration 0 and the incoming
    segment alone is longer than the ceiling, the flush-before-append branch
    runs and saves the accumulator as a group whose end time is its start
    time, and the oversized segment becomes the next accumulator; so an
    oversized first segment, which meets the empty accumulator the pass
    starts with, makes the first saved group the empty one over [0, 0]. *)
Theorem oversized_on_empty_accumulator {sample : Type} (timing : Timing)
    (self : AudioSplitter) (fname : string) (st : LoopState sample)
    (seg : AudioSegment sample) (segments : list (AudioSegment sample)) :
  min_segment_length self <= max_segment_length self ->
  len timing (current_segment st) = 0 ->
  max_segment_length self < len timing seg ->
  loop_body timing self fname st seg
  = ({| current_segment := seg; segment_start := segment_start st |},
     [mkSaveCall (current_segment st) fname
        (segment_start st) (segment_start st)])
  /\ (current_segment st = silent0 ->
      snd (loop_body timing self fname st seg)
      = [mkSaveCall silent0 fname (segment_start st) (segment_start st)])
  /\ split_audio timing self fname (seg :: segments)
     = mkSaveCall silent0 fname 0 0
       :: split_from timing self fname
            {| current_segment := seg; segment_start := 0 |} segments.
Proof.
  intros Hband Hempty Hover.
  assert (Hbody : loop_body timing self fname st seg
                  = ({| current_segment := seg;
                        segment_start := segment_start st |},
                     [mkSaveCall (current_segment st) fname
                        (segment_start st) (segment_start st)])).
  { rewrite loop_body_over by lia. rewrite Hempty.
    change (0 / 1000) with 0. now rewrite Z.add_0_r. }
  split; [exact Hbody |]. split.
  - intros Hsilent. rewrite Hbody. cbn [snd]. now rewrite Hsilent.
  - unfold split_audio. rewrite split_from_cons.
    rewrite loop_body_over
      by (cbn [initial_state current_segment]; rewrite len_silent0; lia).
    cbn [initial_state current_segment segment_start fst snd app].
    rewrite len_silent0. reflexivity.
Qed.

Lemma oversized_on_empty_accumulator_witness :
  split_audio rate_11025 default_splitter "clip" [tone 16000; tone 3000]
  = mkSaveCall [] "clip" 0 0
    :: split_from rate_11025 default_splitter "clip"
         {| current_segment := tone 16000; segment_start := 0 |}
         [tone 3000].
Proof.
  destruct (oversized_on_empty_accumulator rate_11025 default_splitter
              "clip" initial_state (tone 16000) [tone 3000])
    as [_ [_ H]].
  - vm_compute. discriminate.
  - vm_compute. reflexivity.
  - vm_compute. reflexivity.
  - exact H.
Defined.

(** ** The branch that flushes before appending *)

(** C4. Start-offset bookkeeping of the flush-before-append branch: under a
    configuration whose floor is not above its ceiling, whenever a segment
    makes the projected duration exceed [max_segment_length], the
    accumulator is saved in the state it had before the segment, exactly one
    group is saved, the new accumulator is the triggering segment alone, and
    the new [segment_start] is the end time of the group just saved. *)
Theorem flush_before_append_bookkeeping {sample : Type} (timing : Timing)
    (self : AudioSplitter) (fname : string) (st : LoopState sample)
    (seg : AudioSegment sample) :
  min_segment_length self <= max_segment_length self ->
  max_segment_length self
  < len timing (current_segment st) + len timing seg ->
  exists g,
    snd (loop_body timing self fname st seg) = [g]
    /\ segment g = current_segment st
    /\ start_time g = segment_start st
    /\ end_time g
       = segment_start st + len timing (current_segment st) / 1000
    /\ current_segment (fst (loop_body timing self fname st seg)) = seg
    /\ segment_start (fst (loop_body timing self fname st seg)) = end_time g.
Proof.
  intros Hband Hover.
  rewrite loop_body_over by lia. cbn [fst snd].
  eexists. split; [reflexivity |].
  cbn [segment start_time end_time current_segment segment_start].
  repeat split; reflexivity.
Qed.

Lemma flush_before_append_bookkeeping_witness :
  exists g,
    snd (loop_body rate_11025 default_splitter "clip"
           {| current_segment := tone 9500; segment_start := 7 |}
           (tone 9000))
    = [g]
    /\ segment g = tone 9500
    /\ start_time g = 7
    /\ end_time g = 7 + len rate_11025 (tone 9500) / 1000
    /\ current_segment
         (fst (loop_body rate_11025 default_splitter "clip"
                 {| current_segment := tone 9500; segment_start := 7 |}
                 (tone 9000))) = tone 9000
    /\ segment_start
         (fst (loop_body rate_11025 default_splitter "clip"
                 {| current_segment := tone 9500; segment_start := 7 |}
                 (tone 9000))) = end_time g.
Proof.
  apply (flush_before_append_bookkeeping rate_11025 default_splitter "clip"
           {| current_segment := tone 9500; segment_start := 7 |}
           (tone 9000)).
  - vm_compute. discriminate.
  - vm_compute. reflexivity.
Defined.

(** ** The flush after the loop *)

Section TrailingFlush.

Context {sample : Type}.
Variable timing : Timing.

Lemma split_from_silence self fname (segments : list (AudioSegment sample)) :
  0 < min_segment_length self ->
  forall st,
    len timing (current_segment st ++ concat segments) = 0 ->
    split_from timing self fname st segments = [].
Proof.
  intros Hfloor. induction segments as [|seg rest IH]; intros st Hzero.
  - rewrite split_from_nil. apply trailing_flush_none.
    cbn [concat] in Hzero. rewrite app_nil_r in Hzero. lia.
  - cbn [concat] in Hzero.
    pose proof (len_app_l timing (current_segment st) (seg ++ concat rest)).
    pose proof (len_app_r timing (current_segment st) (seg ++ concat rest)).
    pose proof (len_app_l timing seg (concat rest)).
    pose proof (len_nonneg timing (current_segment st)).
    pose proof (len_nonneg timing seg).
    rewrite split_from_cons, loop_body_under by lia. cbn [fst snd app].
    apply IH. cbn [current_segment]. now rewrite <- app_assoc.
Qed.

End TrailingFlush.

(** C6 as stated does not hold for every configuration.  With a floor of 0 a
    segment of duration 0 is already within the band: it is saved at once, as
    an empty group over [0, 0]. *)
Lemma silence_saved_without_floor :
  ~ (forall (timing : Timing) (self : AudioSplitter) (fname : string)
            (segments : list (AudioSegment unit)),
        total_ms timing segments = 0 ->
        len timing (concat segments) = 0 ->
        split_audio timing self fname segments = []).
Proof.
  intros H.
  specialize (H rate_11025 no_floor "clip"%string [tone 0] eq_refl eq_refl).
  vm_compute in H. discriminate H.
Qed.

(** C6 (amended). The flush after the loop: an empty list of segments saves
    nothing, for every configuration; when [min_segment_length] is positive,
    an input whose total duration is zero saves nothing; and for every
    configuration and input, if the accumulator left by the loop has a
    positive duration it is saved once, as the last group, after the groups
    saved by the loop and whatever its duration is with respect to
    [min_segment_length], while an accumulator of duration zero adds
    nothing. *)
Theorem split_audio_trailing_flush {sample : Type} (timing : Timing)
    (self : AudioSplitter) (fname : string)
    (segments : list (AudioSegment sample)) :
  split_audio timing self fname [] = @nil (SaveCall sample)
  /\ (0 < min_segment_length self -> len timing (concat segments) = 0 ->
      split_audio timing self fname segments = [])
  /\ (forall st saved,
        for_loop timing self fname initial_state segments = (st, saved) ->
        0 < len timing (current_segment st) ->
        split_audio timing self fname segments
        = saved ++ [mkSaveCall (current_segment st) fname (segment_start st)
                      (segment_start st
                       + len timing (current_segment st) / 1000)])
  /\ (forall st saved,
        for_loop timing self fname initial_state segments = (st, saved) ->
        len timing (current_segment st) = 0 ->
        split_audio timing self fname segments = saved).
Proof.
  split.
  { unfold split_audio. rewrite split_from_nil.
    apply trailing_flush_none. cbn [initial_state current_segment].
    rewrite len_silent0. lia. }
  split.
  { intros Hfloor Hzero. unfold split_audio.
    now apply split_from_silence. }
  split.
  - intros st saved Hloop Hres. unfold split_audio, split_from.
    rewrite Hloop. now rewrite trailing_flush_some.
  - intros st saved Hloop Hres. unfold split_audio, split_from.
    rewrite Hloop. rewrite trailing_flush_none by lia. apply app_nil_r.
Qed.

Lemma split_audio_trailing_flush_witness :
  split_audio rate_11025 default_splitter "clip" [tone 0; tone 0] = []
  /\ split_audio rate_11025 small_band "clip" [tone 60; tone 60; tone 7]
     = [mkSaveCall (tone 60 ++ tone 60) "clip" 0 0]
       ++ [mkSaveCall (tone 7) "clip" 0
             (0 + len rate_11025 (tone 7) / 1000)]
  /\ split_audio rate_11025 small_band "clip" [tone 60; tone 60]
     = [mkSaveCall (tone 60 ++ tone 60) "clip" 0 0].
Proof.
  split; [| split].
  - apply (proj1 (proj2 (split_audio_trailing_flush rate_11025
                           default_splitter "clip" [tone 0; tone 0]))).
    + vm_compute. reflexivity.
    + vm_compute. reflexivity.
  - apply (proj1 (proj2 (proj2
             (split_audio_trailing_flush rate_11025 small_band "clip"
                [tone 60; tone 60; tone 7])))
             {| current_segment := tone 7; segment_start := 0 |}
             [mkSaveCall (tone 60 ++ tone 60) "clip" 0 0]).
    + vm_compute. reflexivity.
    + vm_compute. reflexivity.
  - apply (proj2 (proj2 (proj2
             (split_audio_trailing_flush rate_11025 small_band "clip"
                [tone 60; tone 60])))
             {| current_segment := []; segment_start := 0 |}
             [mkSaveCall (tone 60 ++ tone 60) "clip" 0 0]).
    + vm_compute. reflexivity.
    + vm_compute. reflexivity.
Defined.

(** ** The band *)

Section Band.

Context {sample : Type}.
Variable timing : Timing.
Variable self : AudioSplitter.
Variable fname : string.
Variable all_segments : list (AudioSegment sample).




End Band.




(** ** The constructor and the band *)

(** C5 as stated does not hold.  With [min_segment_length=20000] and
    [max_segment_length=10000] the constructor returns its instance: nothing
    compares the two. *)
Lemma inverted_band_accepted :
  ~ (forall (min_segment_length' max_segment_length' : Z) (fs : list string),
        max_segment_length' < min_segment_length' ->
        exists e,
          AudioSplitter_init (list string) OSError mkdir_documented
            "cleaned_audios" "wav" (-40) 500
            min_segment_length' max_segment_length' fs = inl e).
Proof.
  intros H.
  destruct (H 20000 10000 [] ltac:(lia)) as [e He].
  vm_compute in He. discriminate He.
Qed.

(** C5 (amended). No failure for an inverted band: for every configuration,
    also with [min_segment_length > max_segment_length], the constructor
    fails exactly when creating the output folder fails, with that error, and
    otherwise returns the instance holding both values unchanged; the pass
    then runs as for any configuration, and when the floor is above the
    ceiling each segment is either appended without a flush or makes the
    accumulator be saved and replaced by that segment, the append-and-flush
    branch never being taken. *)
Theorem inverted_band_not_rejected
    (filesystem exception : Type)
    (Path_mkdir : string -> filesystem -> exception + filesystem)
    (input_folder' output_folder' : string)
    (silence_thresh' min_silence_len' : Z)
    (min_segment_length' max_segment_length' : Z) (fs : filesystem) :
  let self := mkAudioSplitter input_folder' output_folder' silence_thresh'
                min_silence_len' min_segment_length' max_segment_length' in
  let result := AudioSplitter_init filesystem exception Path_mkdir
                  input_folder' output_folder' silence_thresh'
                  min_silence_len' min_segment_length' max_segment_length'
                  fs in
  (forall e, result = inl e <-> Path_mkdir output_folder' fs = inl e)
  /\ (forall fs', result = inr (self, fs')
                  <-> Path_mkdir output_folder' fs = inr fs')
  /\ (max_segment_length' < min_segment_length' ->
      forall (sample : Type) (timing : Timing) (fname : string)
             (st : LoopState sample) (seg : AudioSegment sample),
        loop_body timing self fname st seg
        = ({| current_segment := current_segment st ++ seg;
              segment_start := segment_start st |}, [])
        \/ loop_body timing self fname st seg
           = ({| current_segment := seg;
                 segment_start :=
                   segment_start st
                   + len timing (current_segment st) / 1000 |},
              [mkSaveCall (current_segment st) fname (segment_start st)
                 (segment_start st
                  + len timing (current_segment st) / 1000)])).
Proof.
  cbv zeta. unfold AudioSplitter_init. cbn [output_folder].
  split; [| split].
  - intros e. destruct (Path_mkdir output_folder' fs) as [e' | fs'].
    + split; intros H; injection H as <-; reflexivity.
    + split; intros H; discriminate H.
  - intros fs1. destruct (Path_mkdir output_folder' fs) as [e' | fs'].
    + split; intros H; discriminate H.
    + split; intros H.
      * injection H as <-. reflexivity.
      * injection H as <-. reflexivity.
  - intros Hinv sample timing fname st seg.
    set (self := mkAudioSplitter _ _ _ _ _ _).
    assert (Hmin : min_segment_length self = min_segment_length')
      by reflexivity.
    assert (Hmax : max_segment_length self = max_segment_length')
      by reflexivity.
    destruct (loop_body_cases timing self fname st seg)
      as [Ha | [[Hb1 Hb2] | [Hc1 Hc2]]]; cbv zeta in *.
    + left. now apply loop_body_under.
    + right. now apply loop_body_over.
    + lia.
Qed.

Lemma inverted_band_not_rejected_witness :
  AudioSplitter_init (list string) OSError mkdir_documented
    "cleaned_audios" "wav" (-40) 500 20000 10000 []
  = inr (inverted_band, ["wav"%string])
  /\ (loop_body rate_11025 inverted_band "clip" initial_state (tone 9000)
      = ({| current_segment := initial_state.(current_segment) ++ tone 9000;
            segment_start := 0 |}, [])
      \/ loop_body rate_11025 inverted_band "clip" initial_state (tone 9000)
         = ({| current_segment := tone 9000;
               segment_start := 0 + len rate_11025 (@silent0 unit) / 1000 |},
            [mkSaveCall silent0 "clip" 0
               (0 + len rate_11025 (@silent0 unit) / 1000)])).
Proof.
  pose proof (inverted_band_not_rejected (list string) OSError
                mkdir_documented "cleaned_audios" "wav" (-40) 500
                20000 10000 []) as [_ [Hok Hbody]].
  split.
  - apply (proj2 (Hok ["wav"%string])). vm_compute. reflexivity.
  - apply (Hbody ltac:(lia) unit rate_11025 "clip"%string initial_state
             (tone 9000)).
Defined.


(** * Further properties of the pass *)

(** ** How many groups *)

Section Counting.

Context {sample : Type}.
Variable timing : Timing.
Implicit Types (st : LoopState sample) (seg : AudioSegment sample).
Implicit Types (segments : list (AudioSegment sample)).




End Counting.



(** ** Inputs that stay under the floor, and inputs already in the band *)

Section Shapes.

Context {sample : Type}.
Variable timing : Timing.
Implicit Types (st : LoopState sample) (seg : AudioSegment sample).
Implicit Types (segments : list (AudioSegment sample)).




End Shapes.







(** ** A sufficient condition for the band *)

Section ShortSegments.

Context {sample : Type}.
Variable timing : Timing.
Variable self : AudioSplitter.
Variable fname : string.
Implicit Types (st : LoopState sample) (seg : AudioSegment sample).
Implicit Types (segments : list (AudioSegment sample)).


End ShortSegments.




(** ** Time stamps against the audio *)

Section TimeStamps.

Context {sample : Type}.
Variable timing : Timing.
Implicit Types (g : SaveCall sample) (saved : list (SaveCall sample)).

Lemma chain_starts_after s e saved :
  chain s saved e -> Forall (fun g => s <= start_time g) saved.
Proof.
  induction 1 as [s | g saved e Hle Hch IH]; constructor; [lia |].
  eapply Forall_impl; [| exact IH]. cbv beta. intros g' Hg'. lia.
Qed.

Lemma chain_no_overlap s e saved :
  chain s saved e ->
  forall i j g g',
    (i < j)%nat ->
    nth_error saved i = Some g -> nth_error saved j = Some g' ->
    end_time g <= start_time g'.
Proof.
  induction 1 as [s | g0 saved e Hle Hch IH]; intros i j g g' Hij Hi Hj.
  - destruct i; discriminate.
  - destruct j as [|j]; [lia |]. cbn [nth_error] in Hj.
    destruct i as [|i].
    + cbn [nth_error] in Hi. injection Hi as <-.
      pose proof (chain_starts_after _ _ _ Hch) as Hafter.
      rewrite Forall_forall in Hafter. apply Hafter.
      eapply nth_error_In; exact Hj.
    + cbn [nth_error] in Hi. apply (IH i j); [lia | assumption..].
Qed.

Lemma whole_seconds_bounds saved :
  1000 * whole_seconds timing saved <= total_ms timing (payloads saved)
  /\ total_ms timing (payloads saved)
     <= 1000 * whole_seconds timing saved + 999 * Z.of_nat (length saved).
Proof.
  induction saved as [|g saved IH].
  - cbn. lia.
  - cbn [whole_seconds payloads map total_ms fold_right length].
    fold (whole_seconds timing saved). fold (payloads saved).
    fold (total_ms timing (payloads saved)).
    pose proof (Z.div_mod (len timing (segment g)) 1000 ltac:(lia)) as Hdm.
    pose proof (Z.mod_pos_bound (len timing (segment g)) 1000 ltac:(lia))
      as Hmod.
    lia.
Qed.

End TimeStamps.

(** X7. Saved groups never overlap in time: whenever one group is saved
    before another, however many lie between them, the earlier one ends no
    later than the later one starts. *)
Theorem split_audio_no_overlap {sample : Type} (timing : Timing)
    (self : AudioSplitter) (fname : string)
    (segments : list (AudioSegment sample))
    (i j : nat) (g g' : SaveCall sample) :
  (i < j)%nat ->
  nth_error (split_audio timing self fname segments) i = Some g ->
  nth_error (split_audio timing self fname segments) j = Some g' ->
  end_time g <= start_time g'.
Proof.
  destruct (split_from_chain timing self fname segments initial_state)
    as [e He].
  fold (split_audio timing self fname segments) in He.
  exact (chain_no_overlap _ _ _ He i j g g').
Qed.

Lemma split_audio_no_overlap_witness :
  end_time (mkSaveCall (@nil unit) "clip" 0 0)
  <= start_time (mkSaveCall (tone 3000) "clip" 16 19).
Proof.
  apply (split_audio_no_overlap rate_11025 default_splitter "clip"
           [tone 16000; tone 3000] 0 2).
  - lia.
  - rewrite run_16000_3000. reflexivity.
  - rewrite run_16000_3000. reflexivity.
Defined.

(** X8. How far the time stamps lag behind the audio: the end time of the
    group at index [k], taken in milliseconds, never exceeds the added
    durations of the groups saved up to and including that one, and falls
    short of them by at most 999 ms for each of the [k + 1] groups saved so
    far. *)
Theorem split_audio_timestamp_lag {sample : Type} (timing : Timing)
    (self : AudioSplitter) (fname : string)
    (segments : list (AudioSegment sample))
    (k : nat) (g : SaveCall sample) :
  nth_error (split_audio timing self fname segments) k = Some g ->
  let elapsed :=
    total_ms timing
      (payloads (firstn (S k) (split_audio timing self fname segments))) in
  1000 * end_time g <= elapsed
  /\ elapsed <= 1000 * end_time g + 999 * Z.of_nat (S k).
Proof.
  intros Hk elapsed. subst elapsed.
  destruct (split_from_chain timing self fname segments initial_state)
    as [e He].
  fold (split_audio timing self fname segments) in He.
  pose proof (split_from_exact timing self fname segments initial_state)
    as HF.
  fold (split_audio timing self fname segments) in HF.
  pose proof (chain_firstn _ _ _ He k g Hk) as Hpre.
  apply (chain_span timing) in Hpre.
  - pose proof (whole_seconds_bounds timing
                  (firstn (S k) (split_audio timing self fname segments)))
      as [Hlo Hhi].
    assert (Hlen : (length (firstn (S k)
                              (split_audio timing self fname segments))
                    <= S k)%nat) by apply firstn_le_length.
    cbn [initial_state segment_start] in Hpre. lia.
  - rewrite <- (firstn_skipn (S k) (split_audio timing self fname segments))
      in HF.
    apply Forall_app in HF. exact (proj1 HF).
Qed.

Example run_10999_10999 :
  split_audio rate_11025 default_splitter "clip" [tone 10999; tone 10999]
  = [mkSaveCall (tone 10999) "clip" 0 10;
     mkSaveCall (tone 10999) "clip" 10 20].
Proof. run_pass. Qed.

Lemma split_audio_timestamp_lag_witness :
  1000 * end_time (mkSaveCall (tone 10999) "clip" 10 20)
  <= total_ms rate_11025 [tone 10999; tone 10999]
  /\ total_ms rate_11025 [tone 10999; tone 10999]
     <= 1000 * end_time (mkSaveCall (tone 10999) "clip" 10 20)
        + 999 * Z.of_nat 2.
Proof.
  pose proof (split_audio_timestamp_lag rate_11025 default_splitter "clip"
                [tone 10999; tone 10999] 1
                (mkSaveCall (tone 10999) "clip" 10 20)) as H.
  rewrite run_10999_10999 in H. exact (H eq_refl).
Defined.

(** ** File names *)

Section FileNames.

Local Open Scope string_scope.

Lemma uint_string_dot_free (d : Decimal.uint) :
  dot_free (NilEmpty.string_of_uint d).
Proof.
  induction d; cbn [NilEmpty.string_of_uint dot_free];
    try exact I; (split; [discriminate | assumption]).
Qed.

Lemma str_dot_free (n : Z) : dot_free (str n).
Proof.
  assert (Hu : forall d, dot_free (NilZero.string_of_uint d)).
  { intros d. destruct d; try apply uint_string_dot_free.
    cbn. split; [discriminate | exact I]. }
  unfold str. destruct (Z.to_int n) as [d | d];
    cbn [NilZero.string_of_int dot_free].
  - apply Hu.
  - split; [discriminate | apply Hu].
Qed.

Lemma str_inj (n m : Z) : str n = str m -> n = m.
Proof.
  assert (Hnil : forall k, Z.to_int k <> Decimal.Pos Decimal.Nil
                           /\ Z.to_int k <> Decimal.Neg Decimal.Nil).
  { intros [|p|p]; cbn [Z.to_int]; split; try discriminate;
      intros [= H]; exact (DecimalPos.Unsigned.to_uint_nonnil p H). }
  unfold str. intros Heq. apply DecimalZ.to_int_inj.
  pose proof (NilZero.isi (Z.to_int n) (proj1 (Hnil n)) (proj2 (Hnil n)))
    as Hn.
  pose proof (NilZero.isi (Z.to_int m) (proj1 (Hnil m)) (proj2 (Hnil m)))
    as Hm.
  rewrite Heq, Hm in Hn. now injection Hn.
Qed.

Lemma append_cancel_l (p x y : string) : p ++ x = p ++ y -> x = y.
Proof.
  induction p as [|c p IH]; cbn [append]; [trivial |].
  intros [= H]. now apply IH.
Qed.

(** Two strings that agree up to their first dot agree before it and after
    it. *)
Lemma split_at_dot (a b x y : string) :
  dot_free a -> dot_free b ->
  a ++ "." ++ x = b ++ "." ++ y -> a = b /\ x = y.
Proof.
  revert b. induction a as [|c a IH]; intros b Ha Hb Heq.
  - destruct b as [|c' b]; cbn in Heq.
    + injection Heq as ->. now split.
    + injection Heq as <- _. cbn in Hb. now destruct Hb.
  - destruct b as [|c' b]; cbn in Heq.
    + injection Heq as -> _. cbn in Ha. now destruct Ha.
    + injection Heq as -> Heq. cbn in Ha, Hb.
      destruct (IH b) as [-> ->]; [tauto | tauto | exact Heq |].
      now split.
Qed.

Lemma segment_filename_inj (fname : string) (s e s' e' : Z) :
  segment_filename fname s e = segment_filename fname s' e' ->
  s = s' /\ e = e'.
Proof.
  unfold segment_filename. intros Heq.
  apply append_cancel_l in Heq. cbn [append] in Heq. injection Heq as Heq.
  apply split_at_dot in Heq; [| apply str_dot_free..].
  destruct Heq as [Hs Heq].
  change ".wav" with ("." ++ "wav") in Heq.
  apply split_at_dot in Heq; [| apply str_dot_free..].
  split; apply str_inj; tauto.
Qed.

End FileNames.

Section DistinctNames.

Context {sample : Type}.
Variable timing : Timing.
Implicit Types (g : SaveCall sample) (saved : list (SaveCall sample)).





End DistinctNames.

(** X9. Within one file's pass the name of a saved file determines its
    interval: two names built from the same [file_name] are equal only if
    their start times and their end times are. *)
Theorem segment_filename_determines_interval (fname : string)
    (start_time1 end_time1 start_time2 end_time2 : Z) :
  segment_filename fname start_time1 end_time1
  = segment_filename fname start_time2 end_time2 ->
  start_time1 = start_time2 /\ end_time1 = end_time2.
Proof. apply segment_filename_inj. Qed.

Lemma segment_filename_determines_interval_witness :
  segment_filename "clip" 9 18 = "clip.9.18.wav"%string
  /\ 9 = 9 /\ 18 = 18.
Proof.
  split; [vm_compute; reflexivity |].
  apply (segment_filename_determines_interval "clip" 9 18 9 18).
  reflexivity.
Defined.



(** Neither bound can be lowered.  Under the band [1000, 1998] two groups of
    seven slices each, of 114 ms six times and 316 ms once, last 999 ms each
    once appended and are both saved over [0, 0]; under the band
    [1001, 1997] three slices of 999 ms are saved over [0, 0] one after the
    other.  Either way one file name is used more than once. *)
Example split_audio_same_filename_twice :
  map saved_filename
    (split_audio rate_11025
       (mkAudioSplitter "cleaned_audios" "wav" (-40) 500 1000 1998) "clip"
       [tone 114; tone 114; tone 114; tone 114; tone 114; tone 114;
        tone 316;
        tone 114; tone 114; tone 114; tone 114; tone 114; tone 114;
        tone 316])
  = ["clip.0.0.wav"; "clip.0.0.wav"]%string
  /\ map saved_filename
       (split_audio rate_11025
          (mkAudioSplitter "cleaned_audios" "wav" (-40) 500 1001 1997)
          "clip" [tone 999; tone 999; tone 999])
     = ["clip.0.0.wav"; "clip.0.0.wav"; "clip.0.0.wav"]%string.
Proof. split; vm_compute; reflexivity. Qed.

(** ** Constructing twice *)

Lemma mkdir_documented_exclusive (path : string) (fs fs' : list string) :
  mkdir_documented path fs = inr fs' ->
  exists e, mkdir_documented path fs' = inl e.
Proof.
  unfold mkdir_documented.
  destruct (existsb (String.eqb path) fs); [discriminate |].
  intros [= <-]. cbn [existsb]. rewrite String.eqb_refl. cbn [orb].
  eexists. reflexivity.
Qed.

(** X11. The constructor cannot be run twice on one output folder: whenever
    [Path.mkdir] refuses a directory that a successful call has just created
    (as it does without [exist_ok]), a construction that succeeded makes
    every later construction with the same [output_folder] fail, whatever
    its other arguments. *)
Theorem AudioSplitter_init_twice
    (filesystem exception : Type)
    (Path_mkdir : string -> filesystem -> exception + filesystem)
    (input_folder1 input_folder2 output_folder' : string)
    (silence_thresh1 min_silence_len1 min_segment_length1
       max_segment_length1 : Z)
    (silence_thresh2 min_silence_len2 min_segment_length2
       max_segment_length2 : Z)
    (fs fs' : filesystem) (self : AudioSplitter) :
  (forall path fs0 fs1,
      Path_mkdir path fs0 = inr fs1 ->
      exists e, Path_mkdir path fs1 = inl e) ->
  AudioSplitter_init filesystem exception Path_mkdir
    input_folder1 output_folder' silence_thresh1 min_silence_len1
    min_segment_length1 max_segment_length1 fs = inr (self, fs') ->
  exists e,
    AudioSplitter_init filesystem exception Path_mkdir
      input_folder2 output_folder' silence_thresh2 min_silence_len2
      min_segment_length2 max_segment_length2 fs' = inl e.
Proof.
  intros Hexcl. unfold AudioSplitter_init. cbn [output_folder].
  destruct (Path_mkdir output_folder' fs) as [e | fs1] eqn:Hfirst;
    [discriminate |].
  intros [= _ <-].
  destruct (Hexcl _ _ _ Hfirst) as [e He]. rewrite He.
  exists e. reflexivity.
Qed.

Lemma AudioSplitter_init_twice_witness :
  exists e,
    AudioSplitter_init (list string) OSError mkdir_documented
      "cleaned_audios" "wav" (-40) 500 10000 15000 ["wav"%string] = inl e.
Proof.
  apply (AudioSplitter_init_twice (list string) OSError mkdir_documented
           "cleaned_audios" "cleaned_audios" "wav"
           (-40) 500 10000 15000 (-40) 500 10000 15000
           [] ["wav"%string] default_splitter).
  - apply mkdir_documented_exclusive.
  - vm_compute. reflexivity.
Defined.

(** ** Whole segments only *)

Section WholeSegments.

Context {sample : Type}.
Variable timing : Timing.
Variable self : AudioSplitter.
Variable fname : string.
Implicit Types (st : LoopState sample) (seg : AudioSegment sample).
Implicit Types (segments pending : list (AudioSegment sample)).


(** An accumulator beyond the ceiling is the next group saved, as it is. *)
Lemma split_from_oversized_accumulator segments :
  min_segment_length self <= max_segment_length self ->
  forall st,
    max_segment_length self < len timing (current_segment st) ->
    0 < len timing (current_segment st) ->
    exists g rest,
      split_from timing self fname st segments = g :: rest
      /\ segment g = current_segment st.
Proof.
  intros Hband st Hover Hpos. destruct segments as [|seg more].
  - rewrite split_from_nil, trailing_flush_some by assumption.
    eexists. eexists. split; reflexivity.
  - rewrite split_from_cons. pose proof (len_nonneg timing seg).
    rewrite loop_body_over by lia. cbn [fst snd app].
    eexists. eexists. split; reflexivity.
Qed.

Lemma split_from_keeps_oversized segments :
  min_segment_length self <= max_segment_length self ->
  0 <= max_segment_length self ->
  forall seg st,
    In seg segments ->
    max_segment_length self < len timing seg ->
    In seg (payloads (split_from timing self fname st segments)).
Proof.
  intros Hband Hceil seg.
  induction segments as [|seg0 rest IH]; intros st Hin Hover;
    [destruct Hin |].
  rewrite split_from_cons. unfold payloads. rewrite map_app.
  apply in_or_app. right.
  destruct Hin as [-> | Hin]; [| now apply IH].
  pose proof (len_nonneg timing (current_segment st)).
  rewrite loop_body_over by lia. cbn [fst].
  destruct (split_from_oversized_accumulator rest Hband
              {| current_segment := seg;
                 segment_start :=
                   segment_start st
                   + len timing (current_segment st) / 1000 |})
    as [g [more [Hout Hg]]]; [cbn [current_segment]; lia.. |].
  rewrite Hout. cbn [map current_segment] in *. now left.
Qed.

End WholeSegments.


(** X13. An oversized segment is kept as it is: when the floor is not above
    the ceiling and the ceiling is not negative, every input segment longer
    than [max_segment_length] is the payload of a saved group by itself. *)
Theorem split_audio_oversized_alone {sample : Type} (timing : Timing)
    (self : AudioSplitter) (fname : string)
    (segments : list (AudioSegment sample))
    (seg : AudioSegment sample) :
  min_segment_length self <= max_segment_length self ->
  0 <= max_segment_length self ->
  In seg segments ->
  max_segment_length self < len timing seg ->
  In seg (payloads (split_audio timing self fname segments)).
Proof.
  intros Hband Hceil Hin Hover.
  now apply split_from_keeps_oversized.
Qed.

Lemma split_audio_oversized_alone_witness :
  In (tone 16000)
     (payloads (split_audio rate_11025 default_splitter "clip"
                  [tone 4000; tone 16000; tone 500])).
Proof.
  apply (split_audio_oversized_alone rate_11025 default_splitter "clip"
           [tone 4000; tone 16000; tone 500] (tone 16000)).
  - vm_compute. discriminate.
  - vm_compute. discriminate.
  - right. left. reflexivity.
  - vm_compute. reflexivity.
Defined.
